(** * lightning-address-details-proxy: the address resolver

    A shallow embedding of the request handler of the proxy
    ([src/main.go], and its earlier inline form in [src/unnamed/part_000])
    together with the library calls it makes, and the properties of the
    resolution logic: parsing of the lightning address, the two fetches,
    and the decision on the status and the body of the reply. *)

From Stdlib Require Import String Ascii List ZArith Bool Lia.
From Stdlib Require QArith.
From ExtLib Require Import Structures.Monad Structures.MonadState.
From ExtLib Require Import Data.Monads.StateMonad.
Import ListNotations.
Import MonadNotation.

Set Warnings "-register-all".

Local Open Scope list_scope.
Local Open Scope string_scope.
Local Open Scope monad_scope.

(** Go's [error] interface: [None] is the nil error, [Some m] an error
    whose [Error()] text is [m]. *)
Definition error : Type := option string.

(* ===================================================================== *)
(** ** Package [strings] *)
(* ===================================================================== *)

Module strings.

(** [strings.Split(s, sep)] for a separator of one byte, which is how the
    source calls it ([strings.Split(identifier, "@")]).  Go strings are
    byte sequences, and so are Rocq's.  The result has one more element
    than [s] has separators; [Split("", sep)] is [[""]]. *)
Fixpoint Split (s : string) (sep : ascii) : list string :=
  match s with
  | EmptyString => [EmptyString]
  | String c s' =>
      if Ascii.eqb c sep then EmptyString :: Split s' sep
      else match Split s' sep with
           | p :: ps => String c p :: ps
           | [] => [String c EmptyString]
           end
  end.

(** [strings.Count(s, sep)] for a separator of one byte. *)
Fixpoint Count (s : string) (sep : ascii) : nat :=
  match s with
  | EmptyString => 0
  | String c s' => (if Ascii.eqb c sep then 1 else 0) + Count s' sep
  end.

End strings.

(* ===================================================================== *)
(** ** Package [fmt] *)
(* ===================================================================== *)

Module fmt.

(** The operands the source passes to the formatting functions: strings
    and errors. *)
Inductive operand : Type :=
| Str (s : string)
| Err (e : error).

(** One operand under the verb [%s] or [%v].  A string is copied as it
    is, byte for byte; an error prints its text; the nil error prints
    [<nil>] under [%v] and the bad-operand marker under [%s]. *)
Definition format_operand (verb : ascii) (o : operand) : string :=
  match o with
  | Str s => s
  | Err (Some m) => m
  | Err None => if Ascii.eqb verb "v" then "<nil>" else "%!s(<nil>)"
  end.

(** [fmt.Sprintf] on the fragment the source uses: the verbs [%s] and
    [%v] (and [%%]), with operands that are strings or errors.  A verb
    that finds no operand prints Go's [%!verb(MISSING)].  Only the format
    is scanned for verbs: the bytes of an operand are never interpreted.
    Other verbs, and operands left over, make Go print diagnostics that
    are not reproduced here: the source never makes such a call. *)
Fixpoint Sprintf (format : string) (a : list operand) : string :=
  match format with
  | EmptyString => EmptyString
  | String "%" (String verb rest) =>
      if Ascii.eqb verb "%" then String "%" (Sprintf rest a)
      else if Ascii.eqb verb "s" || Ascii.eqb verb "v" then
        match a with
        | o :: a' => format_operand verb o ++ Sprintf rest a'
        | [] => "%!" ++ String verb "(MISSING)" ++ Sprintf rest []
        end
      else String "%" (String verb (Sprintf rest a))
  | String c rest => String c (Sprintf rest a)
  end.

(** [fmt.Errorf]: a non-nil error whose text is the formatted string. *)
Definition Errorf (format : string) (a : list operand) : error :=
  Some (Sprintf format a).

End fmt.

(* ===================================================================== *)
(** ** [ToUrl] (src/main.go, lines 49-59) *)
(* ===================================================================== *)

(** The three results of the Go function are kept as a triple: on an
    error both URLs are the empty string. *)
Definition ToUrl (identifier : string) : string * string * error :=
  let parts := strings.Split identifier "@" in
  match parts with
  | [part0; part1] =>
      let keysendUrl :=
        fmt.Sprintf "https://%s/.well-known/keysend/%s" [fmt.Str part1; fmt.Str part0] in
      let lnurlpUrl :=
        fmt.Sprintf "https://%s/.well-known/lnurlp/%s" [fmt.Str part1; fmt.Str part0] in
      (lnurlpUrl, keysendUrl, None)
  | _ =>
      ("", "", fmt.Errorf "Invalid lightning address %s" [fmt.Str identifier])
  end.

(* ===================================================================== *)
(** ** Package [encoding/json]: decoded values *)
(* ===================================================================== *)

Module json.

(** What [Decode] stores in an [interface{}]: nil for [null], a bool, a
    float64 (every finite float64 is a rational), a string, a slice or
    a map with string keys. *)
Inductive value : Type :=
| Null
| Bool (b : bool)
| Number (q : QArith_base.Q)
| String' (s : string)
| Array (l : list value)
| Object (m : list (string * value)).

End json.

(** The nil interface value, which is also what JSON [null] decodes to. *)
Definition nil : json.value := json.Null.

(* ===================================================================== *)
(** ** Package [net/http] *)
(* ===================================================================== *)

Module http.

Record Response : Type := { StatusCode : Z; Body : string }.

Definition StatusOK : Z := 200.
Definition StatusBadRequest : Z := 400.

(** The pair [(resp, err)] that [http.Get] returns.  When [err] is nil
    the response is not nil ([Received]).  When [err] is not nil the
    response is nil, except when the redirect policy gave up, where the
    last response comes with the error ([Failed]). *)
Inductive GetResult : Type :=
| Received (resp : Response)
| Failed (resp : option Response) (err : string).

Definition resp_of (g : GetResult) : option Response :=
  match g with
  | Received r => Some r
  | Failed r _ => r
  end.

Definition err_of (g : GetResult) : error :=
  match g with
  | Received _ => None
  | Failed _ e => Some e
  end.

End http.

(* ===================================================================== *)
(** ** The handler's data and its effects *)
(* ===================================================================== *)

(** [type LNResponse struct] (src/main.go, lines 27-30).  The zero value
    has both fields nil. *)
Record LNResponse : Type := { Lnurlp : json.value; Keysend : json.value }.

Definition LNResponse_zero : LNResponse := {| Lnurlp := nil; Keysend := nil |}.


(** What the handler hands to echo: [c.JSON(code, i)] or
    [c.JSONPretty(code, i, indent)]. *)
Inductive Reply : Type :=
| JSON (code : Z) (i : LNResponse)
| JSONPretty (code : Z) (i : LNResponse) (indent : string).

Definition code_of (r : Reply) : Z :=
  match r with JSON c _ => c | JSONPretty c _ _ => c end.

Definition body_of (r : Reply) : LNResponse :=
  match r with JSON _ b => b | JSONPretty _ b _ => b end.

(** The two logger methods the handlers call. *)
Inductive LogLevel : Type := LError | LPrint.

(** What a handler leaves behind besides its reply: the URLs it fetched
    and the lines it logged, both in order. *)
Record World : Type := {
  requests : list string;
  logged : list (LogLevel * string)
}.

Definition World_zero : World := {| requests := []; logged := [] |}.

Section Resolver.

(** The outside world of one request: the outcome of a GET of each URL,
    and the outcome of decoding a body as JSON (a value, or the text of
    the decoder's error). *)
Variable Get_outcome : string -> http.GetResult.
Variable Decode_outcome : string -> json.value + string.

Definition M : Type -> Type := state World.

(** [http.Get(url)] *)
Definition http_Get (url : string) : M http.GetResult :=
  modify (fun w => {| requests := (requests w ++ [url])%list; logged := logged w |}) ;;
  ret (Get_outcome url).

(** [e.Logger.Errorf] and [e.Logger.Printf] *)
Definition Logger_write (l : LogLevel) (format : string) (a : list fmt.operand)
  : M unit :=
  modify (fun w => {| requests := requests w;
                      logged := (logged w ++ [(l, fmt.Sprintf format a)])%list |}) ;;
  ret tt.

Definition Logger_Errorf := Logger_write LError.
Definition Logger_Printf := Logger_write LPrint.

(** [status > 300], the test both files apply to a response. *)
Definition above_300 (r : http.Response) : bool :=
  (300 <? http.StatusCode r)%Z.

(** *** [GetJSON] (src/main.go, lines 33-47)

    What the function computes from the result of its [http.Get]. *)
Definition GetJSON_of (url : string) (g : http.GetResult)
  : json.value * option http.Response * error :=
  let response := http.resp_of g in
  let err := http.err_of g in
  match g with
  | http.Failed _ _ =>
      (nil, response, fmt.Errorf "No details: %s - %v" [fmt.Str url; fmt.Err err])
  | http.Received r =>
      if above_300 r then
        (nil, response, fmt.Errorf "No details: %s - %v" [fmt.Str url; fmt.Err err])
      else
        match Decode_outcome (http.Body r) with
        | inr e => (nil, response, fmt.Errorf "Invalid JSON: %v" [fmt.Err (Some e)])
        | inl j => (j, response, None)
        end
  end.

Definition GetJSON (url : string)
  : M (json.value * option http.Response * error) :=
  g <- http_Get url ;;
  ret (GetJSON_of url g).

(** *** The handler of [GET /lightning-address-details] (src/main.go,
    lines 93-127); [ln] is the query parameter. *)
Definition lightning_address_details (ln : string) : M Reply :=
  let responseBody := LNResponse_zero in
  let '(lnurlpUrl, keysendUrl, err) := ToUrl ln in
  match err with
  | Some _ => ret (JSON http.StatusBadRequest responseBody)
  | None =>
      '(lnurlp, lnurlpResponse, err) <- GetJSON lnurlpUrl ;;
      responseBody <-
        match err with
        | Some _ => Logger_Errorf "%v" [fmt.Err err] ;; ret responseBody
        | None => ret {| Lnurlp := lnurlp; Keysend := Keysend responseBody |}
        end ;;
      '(keysend, keysendResponse, err) <- GetJSON keysendUrl ;;
      responseBody <-
        match err with
        | Some _ => Logger_Errorf "%v" [fmt.Err err] ;; ret responseBody
        | None => ret {| Lnurlp := Lnurlp responseBody; Keysend := keysend |}
        end ;;
      match lnurlpResponse, keysendResponse with
      | None, None => ret (JSON http.StatusBadRequest responseBody)
      | Some l, Some k =>
          if above_300 l && above_300 k then
            ret (JSONPretty (http.StatusCode l) responseBody "  ")
          else ret (JSONPretty http.StatusOK responseBody "  ")
      | _, _ => ret (JSONPretty http.StatusOK responseBody "  ")
      end
  end.

(** *** The handler of src/unnamed/part_000 (lines 64-116): the same
    route with the parsing and the fetches written inline.  It fetches
    keysend first and logs through [Printf]. *)
Definition lightning_address_details_inline (ln : string) : M Reply :=
  let responseBody := LNResponse_zero in
  let parts := strings.Split ln "@" in
  match parts with
  | [part0; part1] =>
      let keysendUrl :=
        fmt.Sprintf "https://%s/.well-known/keysend/%s" [fmt.Str part1; fmt.Str part0] in
      let lnurlpUrl :=
        fmt.Sprintf "https://%s/.well-known/lnurlp/%s" [fmt.Str part1; fmt.Str part0] in
      g <- http_Get keysendUrl ;;
      let keysendResponse := http.resp_of g in
      let err := http.err_of g in
      responseBody <-
        match g with
        | http.Failed _ _ =>
            Logger_Printf "No keysend details: %s - %v" [fmt.Str ln; fmt.Err err] ;;
            ret responseBody
        | http.Received r =>
            if above_300 r then
              Logger_Printf "No keysend details: %s - %v" [fmt.Str ln; fmt.Err err] ;;
              ret responseBody
            else
              match Decode_outcome (http.Body r) with
              | inr e =>
                  Logger_Printf "Invalid keysend JSON: %v" [fmt.Err (Some e)] ;;
                  ret responseBody
              | inl keysend =>
                  ret {| Lnurlp := Lnurlp responseBody; Keysend := keysend |}
              end
        end ;;
      g <- http_Get lnurlpUrl ;;
      let lnurlpResponse := http.resp_of g in
      let err := http.err_of g in
      responseBody <-
        match g with
        | http.Failed _ _ =>
            Logger_Printf "No lnurlp details: %s - %v" [fmt.Str ln; fmt.Err err] ;;
            ret responseBody
        | http.Received r =>
            if above_300 r then
              Logger_Printf "No lnurlp details: %s - %v" [fmt.Str ln; fmt.Err err] ;;
              ret responseBody
            else
              match Decode_outcome (http.Body r) with
              | inr e =>
                  Logger_Printf "Invalid lnurlp JSON: %v" [fmt.Err (Some e)] ;;
                  ret responseBody
              | inl lnurlp =>
                  ret {| Lnurlp := lnurlp; Keysend := Keysend responseBody |}
              end
        end ;;
      match lnurlpResponse, keysendResponse with
      | None, None => ret (JSON http.StatusBadRequest responseBody)
      | Some l, Some k =>
          if above_300 l && above_300 k then
            ret (JSONPretty (http.StatusCode l) responseBody "  ")
          else ret (JSONPretty http.StatusOK responseBody "  ")
      | _, _ => ret (JSONPretty http.StatusOK responseBody "  ")
      end
  | _ => ret (JSON http.StatusBadRequest responseBody)
  end.

(** *** Vocabulary for the properties

    A fetch succeeded when [GetJSON] returns a nil error. *)
Definition succeeded (res : json.value * option http.Response * error) : bool :=
  match snd res with None => true | Some _ => false end.

(** What a fetch leaves in its field of the reply: the decoded value
    when it succeeded, and the nil the field started with when not. *)
Definition contribution (res : json.value * option http.Response * error)
  : json.value :=
  if succeeded res then fst (fst res) else nil.

(** The two conditions of the status decision, on the responses of the
    two fetches. *)
Definition neither_responded (lnurlpResponse keysendResponse : option http.Response)
  : Prop :=
  lnurlpResponse = None /\ keysendResponse = None.


(** The reply both handlers come to, from the URLs of the two fetches:
    used to state what a run returns. *)
Definition verdict (lnurlpUrl keysendUrl : string) : Reply :=
  let body :=
    {| Lnurlp := contribution (GetJSON_of lnurlpUrl (Get_outcome lnurlpUrl));
       Keysend := contribution (GetJSON_of keysendUrl (Get_outcome keysendUrl)) |} in
  match http.resp_of (Get_outcome lnurlpUrl), http.resp_of (Get_outcome keysendUrl) with
  | None, None => JSON http.StatusBadRequest body
  | Some l, Some k =>
      if above_300 l && above_300 k then JSONPretty (http.StatusCode l) body "  "
      else JSONPretty http.StatusOK body "  "
  | _, _ => JSONPretty http.StatusOK body "  "
  end.

End Resolver.

(** The double quote, for JSON texts. *)
Definition dq : string := String (Ascii.ascii_of_nat 34) EmptyString.

(** A decoder for the examples: it knows three bodies and rejects the
    rest. *)
Module Demo.

Definition obj_a1 : json.value :=
  json.Object [("a", json.Number (QArith_base.Qmake 1 1))].

Definition body_a1 : string := "{" ++ dq ++ "a" ++ dq ++ ":1}".

Definition Decode (body : string) : json.value + string :=
  if String.eqb body body_a1 then inl obj_a1
  else if String.eqb body "{}" then inl (json.Object [])
  else if String.eqb body "null" then inl json.Null
  else inr "invalid character".

(** The host [domain.com] answering the two well-known paths of [user]
    with the given results, and nothing else reachable. *)
Definition unreachable : http.GetResult :=
  http.Failed None "dial tcp: lookup failed: no such host".

Definition Get (lnurlp keysend : http.GetResult) (url : string) : http.GetResult :=
  if String.eqb url "https://domain.com/.well-known/lnurlp/user" then lnurlp
  else if String.eqb url "https://domain.com/.well-known/keysend/user" then keysend
  else unreachable.

Definition status (code : Z) (body : string) : http.GetResult :=
  http.Received {| http.StatusCode := code; http.Body := body |}.

End Demo.

(** *** Vocabulary for what a run leaves behind *)

(** The line a handler logs for a fetch that returned the error [err]:
    none when the error is nil. *)
Definition logged_for (l : LogLevel) (err : error) : list (LogLevel * string) :=
  match err with
  | Some m => [(l, m)]
  | None => []
  end.

(** Whether the result of a GET gets past the test of the handlers and
    decodes: the condition under which the field of the reply is set, in
    [GetJSON] and in the inline handler alike. *)
Definition decodes (Decode : string -> json.value + string) (g : http.GetResult)
  : bool :=
  match g with
  | http.Received r =>
      if above_300 r then false
      else match Decode (http.Body r) with inl _ => true | inr _ => false end
  | http.Failed _ _ => false
  end.

(** How many of two GETs do not end in a decoded value. *)
Definition failures (Decode : string -> json.value + string)
  (g1 g2 : http.GetResult) : nat :=
  (if decodes Decode g1 then 0 else 1) + (if decodes Decode g2 then 0 else 1).

(** Two results of a GET that the client cannot tell apart, as far as
    the code reads them: the same presence of a response and the same
    status, and the same body when the status is one the handlers
    decode.  The text of the error and the body under a status above 300
    are free. *)
Definition same_to_client (g g' : http.GetResult) : Prop :=
  match g, g' with
  | http.Received r, http.Received r' =>
      http.StatusCode r = http.StatusCode r' /\
      (above_300 r = true \/ http.Body r = http.Body r')
  | http.Failed o _, http.Failed o' _ =>
      option_map http.StatusCode o = option_map http.StatusCode o'
  | _, _ => False
  end.

(** Two requests for the same address, one after the other. *)
Definition twice (h : string -> state World Reply) (ln : string)
  : state World (Reply * Reply) :=
  r1 <- h ln ;;
  r2 <- h ln ;;
  ret (r1, r2).

(* ===================================================================== *)
(** * Properties *)
(* ===================================================================== *)

(** ** Splitting and formatting *)

Lemma append_empty_r (s : string) : s ++ "" = s.
Proof. induction s as [|c s IH]; simpl; [reflexivity | now rewrite IH]. Qed.

(** Go's documented count: one more part than there are separators. *)
Lemma Split_length (s : string) (sep : ascii) :
  length (strings.Split s sep) = S (strings.Count s sep).
Proof.
  induction s as [|c s IH]; simpl; [reflexivity|].
  destruct (Ascii.eqb c sep); simpl.
  - now rewrite IH.
  - destruct (strings.Split s sep) as [|p ps] eqn:E; simpl in *; [discriminate | exact IH].
Qed.

Lemma Split_no_sep (s : string) (sep : ascii) :
  strings.Count s sep = 0 -> strings.Split s sep = [s].
Proof.
  induction s as [|c s IH]; simpl; [reflexivity|].
  destruct (Ascii.eqb c sep); simpl; [discriminate|].
  intros H. now rewrite (IH H).
Qed.

Lemma Split_cut (l d : string) (sep : ascii) :
  strings.Count l sep = 0 ->
  strings.Split (l ++ String sep d) sep = l :: strings.Split d sep.
Proof.
  induction l as [|c l IH]; simpl.
  - intros _. now rewrite Ascii.eqb_refl.
  - destruct (Ascii.eqb c sep); simpl; [discriminate|].
    intros H. now rewrite (IH H).
Qed.

Lemma Split_two (l d : string) (sep : ascii) :
  strings.Count l sep = 0 -> strings.Count d sep = 0 ->
  strings.Split (l ++ String sep d) sep = [l; d].
Proof.
  intros Hl Hd. now rewrite (Split_cut _ _ _ Hl), (Split_no_sep _ _ Hd).
Qed.

(** The two templates are filled by concatenation, whatever the bytes of
    the operands. *)
Lemma Sprintf_lnurlp (d l : string) :
  fmt.Sprintf "https://%s/.well-known/lnurlp/%s" [fmt.Str d; fmt.Str l]
  = "https://" ++ d ++ "/.well-known/lnurlp/" ++ l.
Proof.
  cbn. repeat f_equal.
  induction d as [|c d IH]; cbn; [now rewrite append_empty_r | now rewrite IH].
Qed.

Lemma Sprintf_keysend (d l : string) :
  fmt.Sprintf "https://%s/.well-known/keysend/%s" [fmt.Str d; fmt.Str l]
  = "https://" ++ d ++ "/.well-known/keysend/" ++ l.
Proof.
  cbn. repeat f_equal.
  induction d as [|c d IH]; cbn; [now rewrite append_empty_r | now rewrite IH].
Qed.

(** ** [ToUrl] *)

Lemma ToUrl_parts (identifier part0 part1 : string) :
  strings.Split identifier "@" = [part0; part1] ->
  ToUrl identifier =
    ("https://" ++ part1 ++ "/.well-known/lnurlp/" ++ part0,
     "https://" ++ part1 ++ "/.well-known/keysend/" ++ part0, None).
Proof.
  intros H. unfold ToUrl. rewrite H.
  now rewrite Sprintf_lnurlp, Sprintf_keysend.
Qed.

Lemma ToUrl_error (identifier : string) :
  length (strings.Split identifier "@") <> 2 ->
  ToUrl identifier =
    ("", "", Some ("Invalid lightning address " ++ identifier)).
Proof.
  intros H. unfold ToUrl.
  destruct (strings.Split identifier "@") as [|a [|b [|c t]]]; simpl in H;
    try congruence; unfold fmt.Errorf; cbn; now rewrite append_empty_r.
Qed.

(** ** The handlers, run *)

#[local] Arguments above_300 : simpl never.

(** Runs a handler whose two GET results are known by equations in the
    context, splitting on the status tests and on the decoder. *)
Ltac run_fetches Get Decode :=
  unfold GetJSON, http_Get, Logger_Errorf, Logger_Printf, Logger_write, GetJSON_of;
  cbn;
  repeat match goal with
         | H : Get ?u = _ |- context [Get ?u] => rewrite H; cbn
         end;
  repeat match goal with
         | |- context [above_300 ?r] => destruct (above_300 r) eqn:?; cbn
         | |- context [Decode ?b] => destruct (Decode b) eqn:?; cbn
         end;
  try reflexivity; try discriminate.

Section Runs.

Variable Get : string -> http.GetResult.
Variable Decode : string -> json.value + string.

(** [GetJSON] goes on to decode exactly when the GET returned no error
    and a status that is not above 300. *)
Lemma GetJSON_of_guard (url : string) (g : http.GetResult) :
  (exists r, g = http.Received r /\ (http.StatusCode r <= 300)%Z /\
     GetJSON_of Decode url g =
       match Decode (http.Body r) with
       | inl j => (j, Some r, None)
       | inr e => (nil, Some r, Some ("Invalid JSON: " ++ e))
       end)
  \/ ((forall r, g = http.Received r -> (300 < http.StatusCode r)%Z) /\
      GetJSON_of Decode url g =
        (nil, http.resp_of g,
         Some ("No details: " ++ url ++ " - " ++
               match http.err_of g with Some e => e | None => "<nil>" end))).
Proof.
  assert (F : forall e : error,
             fmt.Sprintf "No details: %s - %v" [fmt.Str url; fmt.Err e]
             = "No details: " ++ url ++ " - " ++
               match e with Some m => m | None => "<nil>" end).
  { intros e. cbn. f_equal. repeat f_equal.
    induction url as [|c u IH]; cbn.
    - destruct e; cbn; [now rewrite append_empty_r | reflexivity].
    - now rewrite IH. }
  destruct g as [r | r e]; unfold GetJSON_of, fmt.Errorf.
  - unfold above_300. destruct (Z.ltb_spec 300 (http.StatusCode r)).
    + right. split; [intros r' [= <-]; assumption | now rewrite F].
    + left. exists r. repeat split; [assumption|].
      destruct (Decode (http.Body r)); cbn; [reflexivity | now rewrite append_empty_r].
  - right. split; [discriminate | now rewrite F].
Qed.

Lemma body_of_verdict (lnurlpUrl keysendUrl : string) :
  body_of (verdict Get Decode lnurlpUrl keysendUrl) =
    {| Lnurlp := contribution (GetJSON_of Decode lnurlpUrl (Get lnurlpUrl));
       Keysend := contribution (GetJSON_of Decode keysendUrl (Get keysendUrl)) |}.
Proof.
  unfold verdict.
  destruct (http.resp_of (Get lnurlpUrl)) as [l|], (http.resp_of (Get keysendUrl)) as [k|];
    try reflexivity.
  destruct (above_300 l && above_300 k); reflexivity.
Qed.

(** The reply of the handler of main.go once the address has parsed. *)
Lemma details_reply (ln lnurlpUrl keysendUrl : string) (w : World) :
  ToUrl ln = (lnurlpUrl, keysendUrl, None) ->
  fst (runState (lightning_address_details Get Decode ln) w) =
    verdict Get Decode lnurlpUrl keysendUrl.
Proof.
  intros H. unfold lightning_address_details. rewrite H.
  unfold verdict, contribution, succeeded.
  destruct (Get lnurlpUrl) as [l | [l|] el] eqn:El;
    destruct (Get keysendUrl) as [k | [k|] ek] eqn:Ek;
    run_fetches Get Decode.
Qed.

(** The reply, and the untouched world, when the address does not parse. *)
Lemma details_unparsed (ln : string) (w : World) :
  length (strings.Split ln "@") <> 2 ->
  runState (lightning_address_details Get Decode ln) w =
    (JSON http.StatusBadRequest LNResponse_zero, w).
Proof.
  intros H. unfold lightning_address_details.
  now rewrite (ToUrl_error _ H).
Qed.

(** The reply of the inline handler of part_000 on an address of two
    parts. *)
Lemma inline_reply (ln part0 part1 : string) (w : World) :
  strings.Split ln "@" = [part0; part1] ->
  fst (runState (lightning_address_details_inline Get Decode ln) w) =
    verdict Get Decode
      (fmt.Sprintf "https://%s/.well-known/lnurlp/%s" [fmt.Str part1; fmt.Str part0])
      (fmt.Sprintf "https://%s/.well-known/keysend/%s" [fmt.Str part1; fmt.Str part0]).
Proof.
  intros H. unfold lightning_address_details_inline. rewrite H.
  unfold verdict, contribution, succeeded.
  set (lnurlpUrl := fmt.Sprintf "https://%s/.well-known/lnurlp/%s" _).
  set (keysendUrl := fmt.Sprintf "https://%s/.well-known/keysend/%s" _).
  clearbody lnurlpUrl keysendUrl.
  destruct (Get lnurlpUrl) as [l | [l|] el] eqn:El;
    destruct (Get keysendUrl) as [k | [k|] ek] eqn:Ek;
    run_fetches Get Decode.
Qed.

Lemma inline_unparsed (ln : string) (w : World) :
  length (strings.Split ln "@") <> 2 ->
  runState (lightning_address_details_inline Get Decode ln) w =
    (JSON http.StatusBadRequest LNResponse_zero, w).
Proof.
  intros H. unfold lightning_address_details_inline.
  destruct (strings.Split ln "@") as [|a [|b [|c t]]]; simpl in H;
    try congruence; reflexivity.
Qed.

End Runs.

(* ===================================================================== *)
(** * The claims about parsing *)
(* ===================================================================== *)

(** C8.  For ["user@domain.com"] [ToUrl] builds exactly
    [https://domain.com/.well-known/lnurlp/user] and
    [https://domain.com/.well-known/keysend/user]; and for every
    local part and domain (neither holding an [@]) the two URLs are the
    fixed templates with the domain and the local part spliced in as they
    are, byte for byte, with no escaping or encoding. *)
Theorem ToUrl_plain_substitution :
  ToUrl "user@domain.com" =
    ("https://domain.com/.well-known/lnurlp/user",
     "https://domain.com/.well-known/keysend/user", None)
  /\ forall local domain : string,
       strings.Count local "@" = 0 -> strings.Count domain "@" = 0 ->
       ToUrl (local ++ "@" ++ domain) =
         ("https://" ++ domain ++ "/.well-known/lnurlp/" ++ local,
          "https://" ++ domain ++ "/.well-known/keysend/" ++ local, None).
Proof.
  split; [reflexivity|].
  intros local domain Hl Hd.
  apply ToUrl_parts. change ("@" ++ domain) with (String "@" domain).
  now apply Split_two.
Qed.

Lemma ToUrl_plain_substitution_witness :
  strings.Count "a b/%2F?x=1&y" "@" = 0 /\
  strings.Count "host:8080/p#%s" "@" = 0 /\
  ToUrl "a b/%2F?x=1&y@host:8080/p#%s" =
    ("https://host:8080/p#%s/.well-known/lnurlp/a b/%2F?x=1&y",
     "https://host:8080/p#%s/.well-known/keysend/a b/%2F?x=1&y", None).
Proof.
  split; [reflexivity | split; [reflexivity|]].
  apply (proj2 ToUrl_plain_substitution "a b/%2F?x=1&y" "host:8080/p#%s");
    reflexivity.
Defined.

(** C3, as the spec has it, fails: [ToUrl] does not reject every
    identifier whose split is not two non-empty parts.  ["@domain"] and
    ["user@"] split in two parts, one of them empty, and are accepted. *)
Lemma ToUrl_accepts_empty_part :
  ~ (forall identifier : string,
       ~ (exists part0 part1,
            strings.Split identifier "@" = [part0; part1] /\
            part0 <> "" /\ part1 <> "") ->
       snd (ToUrl identifier) <> None)
  /\ ToUrl "@domain" =
       ("https://domain/.well-known/lnurlp/", "https://domain/.well-known/keysend/", None)
  /\ ToUrl "user@" =
       ("https:///.well-known/lnurlp/user", "https:///.well-known/keysend/user", None).
Proof.
  split; [|split; reflexivity].
  intros claim. apply (claim "@domain"); [|reflexivity].
  intros (part0 & part1 & E & H0 & _). cbn in E.
  injection E as <- _. now apply H0.
Qed.

(** C3, amended.  [ToUrl] splits the identifier on [@] and fails with
    the invalid-address error exactly when the split does not yield
    exactly two parts; the parts may be empty.  When the split yields two
    parts the two URLs are built from them. *)
Theorem ToUrl_fails_iff_not_two_parts (identifier : string) :
  (length (strings.Split identifier "@") <> 2 ->
   ToUrl identifier = ("", "", Some ("Invalid lightning address " ++ identifier)))
  /\ (forall part0 part1,
        strings.Split identifier "@" = [part0; part1] ->
        ToUrl identifier =
          ("https://" ++ part1 ++ "/.well-known/lnurlp/" ++ part0,
           "https://" ++ part1 ++ "/.well-known/keysend/" ++ part0, None))
  /\ (snd (ToUrl identifier) <> None <->
      length (strings.Split identifier "@") <> 2).
Proof.
  split; [apply ToUrl_error | split; [intros p0 p1; apply ToUrl_parts|]].
  split.
  - intros Herr Hlen. apply Herr.
    destruct (strings.Split identifier "@") as [|a [|b [|c t]]] eqn:E;
      simpl in Hlen; try discriminate.
    now rewrite (ToUrl_parts _ _ _ E).
  - intros Hlen. now rewrite (ToUrl_error _ Hlen).
Qed.

Lemma ToUrl_fails_iff_not_two_parts_witness :
  length (strings.Split "a@b@c" "@") <> 2 /\
  ToUrl "a@b@c" = ("", "", Some "Invalid lightning address a@b@c").
Proof.
  assert (H : length (strings.Split "a@b@c" "@") <> 2) by (cbn; lia).
  split; [exact H|].
  exact (proj1 (ToUrl_fails_iff_not_two_parts "a@b@c") H).
Defined.

(** C4.  An identifier that does not hold exactly one [@] (none, or more
    than one) gets status 400 with both fields null, and the handler
    fetches nothing: the world it leaves is the world it found. *)
Theorem no_single_at_is_bad_request
  (Get : string -> http.GetResult) (Decode : string -> json.value + string)
  (ln : string) (w : World) :
  strings.Count ln "@" <> 1 ->
  runState (lightning_address_details Get Decode ln) w =
    (JSON http.StatusBadRequest {| Lnurlp := json.Null; Keysend := json.Null |}, w)
  /\ requests (snd (runState (lightning_address_details Get Decode ln) w)) = requests w.
Proof.
  intros H.
  assert (L : length (strings.Split ln "@") <> 2) by (rewrite Split_length; lia).
  rewrite (details_unparsed Get Decode ln w L). split; reflexivity.
Qed.

Lemma no_single_at_is_bad_request_witness :
  strings.Count "a@b@c" "@" <> 1 /\
  runState (lightning_address_details
              (Demo.Get (Demo.status 200 "{}") (Demo.status 200 "{}")) Demo.Decode "a@b@c")
           World_zero
  = (JSON 400 {| Lnurlp := json.Null; Keysend := json.Null |}, World_zero).
Proof.
  assert (H : strings.Count "a@b@c" "@" <> 1) by (cbn; lia).
  split; [exact H|].
  exact (proj1 (no_single_at_is_bad_request
                  (Demo.Get (Demo.status 200 "{}") (Demo.status 200 "{}"))
                  Demo.Decode "a@b@c" World_zero H)).
Defined.

(* ===================================================================== *)
(** * The claims about the status decision *)
(* ===================================================================== *)

(** X19.  When both fetches come back with a response and both
    responses carry a status strictly above 300 (the test of the
    handler, which leaves 300 itself out), the reply carries the status
    of the lnurlp response, not that of keysend, and the empty result; so
    a 404 from lnurlp with a 500 from keysend gives 404 with both fields
    empty. *)
Theorem both_failed_mirrors_lnurlp
  (Get : string -> http.GetResult) (Decode : string -> json.value + string)
  (ln lnurlpUrl keysendUrl : string) (l k : http.Response) (w : World) :
  ToUrl ln = (lnurlpUrl, keysendUrl, None) ->
  http.resp_of (Get lnurlpUrl) = Some l ->
  http.resp_of (Get keysendUrl) = Some k ->
  above_300 l = true -> above_300 k = true ->
  fst (runState (lightning_address_details Get Decode ln) w) =
    JSONPretty (http.StatusCode l) {| Lnurlp := json.Null; Keysend := json.Null |} "  "
  /\ (http.StatusCode l = 404%Z -> http.StatusCode k = 500%Z ->
      code_of (fst (runState (lightning_address_details Get Decode ln) w)) = 404%Z).
Proof.
  intros HU Hl Hk Al Ak.
  rewrite (details_reply Get Decode ln _ _ w HU).
  unfold verdict. rewrite Hl, Hk, Al, Ak. cbn [andb].
  assert (B : forall url g r, http.resp_of g = Some r -> above_300 r = true ->
              contribution (GetJSON_of Decode url g) = json.Null).
  { intros url g r Hr Ar. unfold contribution, succeeded, GetJSON_of.
    destruct g as [r' | r' e]; cbn in *; [|reflexivity].
    injection Hr as ->. now rewrite Ar. }
  rewrite (B _ _ _ Hl Al), (B _ _ _ Hk Ak).
  split; [reflexivity | intros E _; exact E].
Qed.

Lemma both_failed_mirrors_lnurlp_witness :
  fst (runState (lightning_address_details
                   (Demo.Get (Demo.status 404 "Not Found") (Demo.status 500 "oops"))
                   Demo.Decode "user@domain.com") World_zero)
  = JSONPretty 404 {| Lnurlp := json.Null; Keysend := json.Null |} "  ".
Proof.
  exact (proj1 (both_failed_mirrors_lnurlp
                  (Demo.Get (Demo.status 404 "Not Found") (Demo.status 500 "oops"))
                  Demo.Decode "user@domain.com" _ _
                  {| http.StatusCode := 404; http.Body := "Not Found" |}
                  {| http.StatusCode := 500; http.Body := "oops" |}
                  World_zero eq_refl eq_refl eq_refl eq_refl eq_refl)).
Defined.

(** C5.  When neither fetch produced a response at all (both GETs
    failed below HTTP, leaving no response object), the reply is 400
    with both fields null. *)
Theorem neither_responded_is_bad_request
  (Get : string -> http.GetResult) (Decode : string -> json.value + string)
  (ln lnurlpUrl keysendUrl : string) (w : World) :
  ToUrl ln = (lnurlpUrl, keysendUrl, None) ->
  http.resp_of (Get lnurlpUrl) = None ->
  http.resp_of (Get keysendUrl) = None ->
  fst (runState (lightning_address_details Get Decode ln) w) =
    JSON 400 {| Lnurlp := json.Null; Keysend := json.Null |}.
Proof.
  intros HU Hl Hk.
  rewrite (details_reply Get Decode ln _ _ w HU).
  unfold verdict. rewrite Hl, Hk.
  assert (B : forall url g, http.resp_of g = None ->
              contribution (GetJSON_of Decode url g) = json.Null).
  { intros url g Hr. destruct g as [r | r e]; [discriminate | reflexivity]. }
  now rewrite (B _ _ Hl), (B _ _ Hk).
Qed.

Lemma neither_responded_is_bad_request_witness :
  fst (runState (lightning_address_details
                   (Demo.Get Demo.unreachable Demo.unreachable)
                   Demo.Decode "user@domain.com") World_zero)
  = JSON 400 {| Lnurlp := json.Null; Keysend := json.Null |}.
Proof.
  exact (neither_responded_is_bad_request
           (Demo.Get Demo.unreachable Demo.unreachable)
           Demo.Decode "user@domain.com" _ _ World_zero eq_refl eq_refl eq_refl).
Defined.

(** C6.  A response that arrives with a status of the success range (not
    above 300) and a body that does not decode as JSON still counts as a
    response received: whatever the other fetch does, the reply is not the
    400 of the neither-responded branch but 200; its own field stays
    empty; and it does not count as a failed status.  So when both
    fetches get a 200 whose body does not decode, both fields are empty
    and the status is 200. *)
Theorem undecodable_body_is_a_response
  (Get : string -> http.GetResult) (Decode : string -> json.value + string)
  (ln lnurlpUrl keysendUrl : string) (w : World) :
  ToUrl ln = (lnurlpUrl, keysendUrl, None) ->
  let reply := fst (runState (lightning_address_details Get Decode ln) w) in
  (forall r e,
     Get lnurlpUrl = http.Received r -> above_300 r = false ->
     Decode (http.Body r) = inr e ->
     code_of reply = 200%Z /\ Lnurlp (body_of reply) = json.Null)
  /\ (forall r e,
        Get keysendUrl = http.Received r -> above_300 r = false ->
        Decode (http.Body r) = inr e ->
        code_of reply = 200%Z /\ Keysend (body_of reply) = json.Null)
  /\ (forall l k el ek,
        Get lnurlpUrl = http.Received l -> Get keysendUrl = http.Received k ->
        http.StatusCode l = 200%Z -> http.StatusCode k = 200%Z ->
        Decode (http.Body l) = inr el -> Decode (http.Body k) = inr ek ->
        reply = JSONPretty 200 {| Lnurlp := json.Null; Keysend := json.Null |} "  ").
Proof.
  intros HU reply. subst reply.
  rewrite (details_reply Get Decode ln _ _ w HU).
  unfold verdict, contribution, succeeded, GetJSON_of.
  split; [|split].
  - intros r e G A D. rewrite G. cbn. rewrite A, D. cbn.
    destruct (http.resp_of (Get keysendUrl)); split; reflexivity.
  - intros r e G A D. rewrite G. cbn. rewrite A, D. cbn.
    destruct (http.resp_of (Get lnurlpUrl)) as [l|]; [|split; reflexivity].
    rewrite andb_false_r. split; reflexivity.
  - intros l k el ek Hl Hk Sl Sk Dl Dk. rewrite Hl, Hk. cbn.
    unfold above_300. rewrite Sl, Sk. cbn. now rewrite Dl, Dk.
Qed.

Lemma undecodable_body_is_a_response_witness :
  fst (runState (lightning_address_details
                   (Demo.Get (Demo.status 200 "<html>") (Demo.status 200 "not json"))
                   Demo.Decode "user@domain.com") World_zero)
  = JSONPretty 200 {| Lnurlp := json.Null; Keysend := json.Null |} "  ".
Proof.
  exact (proj2 (proj2 (undecodable_body_is_a_response
                         (Demo.Get (Demo.status 200 "<html>") (Demo.status 200 "not json"))
                         Demo.Decode "user@domain.com" _ _ World_zero eq_refl))
           {| http.StatusCode := 200; http.Body := "<html>" |}
           {| http.StatusCode := 200; http.Body := "not json" |}
           "invalid character" "invalid character"
           eq_refl eq_refl eq_refl eq_refl eq_refl eq_refl).
Defined.



(* ===================================================================== *)
(** * The two fields, and the two handlers *)
(* ===================================================================== *)

(** C9.  The two fields of the result are populated independently.  Take
    two runs on the same identifier, in two outside worlds (and from any
    two starting worlds): when the worlds agree on the outcome of the
    lnurlp fetch, however they differ on keysend, the lnurlp field is the
    same in both replies; and the same for the keysend field when they
    agree on the keysend fetch. *)
Theorem fields_populated_independently
  (Get Get' : string -> http.GetResult) (Decode : string -> json.value + string)
  (ln lnurlpUrl keysendUrl : string) (e : error) (w w' : World) :
  ToUrl ln = (lnurlpUrl, keysendUrl, e) ->
  let reply := fst (runState (lightning_address_details Get Decode ln) w) in
  let reply' := fst (runState (lightning_address_details Get' Decode ln) w') in
  (Get lnurlpUrl = Get' lnurlpUrl -> Lnurlp (body_of reply) = Lnurlp (body_of reply'))
  /\ (Get keysendUrl = Get' keysendUrl ->
      Keysend (body_of reply) = Keysend (body_of reply')).
Proof.
  intros HU reply reply'. subst reply reply'.
  destruct e as [m|].
  - unfold lightning_address_details. rewrite HU. split; reflexivity.
  - rewrite (details_reply Get Decode ln _ _ w HU),
            (details_reply Get' Decode ln _ _ w' HU), !body_of_verdict.
    cbn [Lnurlp Keysend]. split; intros ->; reflexivity.
Qed.

Lemma fields_populated_independently_witness :
  let Get := Demo.Get (Demo.status 200 Demo.body_a1) Demo.unreachable in
  let Get' := Demo.Get (Demo.status 200 Demo.body_a1) (Demo.status 500 "oops") in
  Lnurlp (body_of (fst (runState (lightning_address_details Get Demo.Decode
                                    "user@domain.com") World_zero)))
  = Lnurlp (body_of (fst (runState (lightning_address_details Get' Demo.Decode
                                      "user@domain.com") World_zero))).
Proof.
  exact (proj1 (fields_populated_independently
                  (Demo.Get (Demo.status 200 Demo.body_a1) Demo.unreachable)
                  (Demo.Get (Demo.status 200 Demo.body_a1) (Demo.status 500 "oops"))
                  Demo.Decode "user@domain.com" _ _ _ World_zero World_zero eq_refl)
           eq_refl).
Defined.

(** C10.  The handler of main.go (parsing through [ToUrl], fetching
    through [GetJSON], lnurlp first) and the inline handler of part_000
    (keysend first) are equivalent: for every identifier and every fixed
    assignment of outcomes to the URLs they return the same reply, that
    is the same status, the same body and the same rendering. *)
Theorem handlers_equivalent
  (Get : string -> http.GetResult) (Decode : string -> json.value + string)
  (ln : string) (w w' : World) :
  fst (runState (lightning_address_details Get Decode ln) w) =
  fst (runState (lightning_address_details_inline Get Decode ln) w').
Proof.
  destruct (strings.Split ln "@") as [|part0 [|part1 [|part2 t]]] eqn:E.
  1, 2, 4:
    rewrite details_unparsed, inline_unparsed by (rewrite E; discriminate);
    reflexivity.
  rewrite (inline_reply Get Decode ln part0 part1 w' E).
  apply details_reply. unfold ToUrl. now rewrite E.
Qed.

(** The two handlers do differ in what they leave behind: the order of
    the two requests, and the lines they log. *)
Example handlers_differ_in_trace :
  let Get := Demo.Get (Demo.status 200 Demo.body_a1) Demo.unreachable in
  requests (snd (runState (lightning_address_details Get Demo.Decode "user@domain.com")
                          World_zero))
  = ["https://domain.com/.well-known/lnurlp/user";
     "https://domain.com/.well-known/keysend/user"]
  /\ requests (snd (runState (lightning_address_details_inline Get Demo.Decode
                                "user@domain.com") World_zero))
     = ["https://domain.com/.well-known/keysend/user";
        "https://domain.com/.well-known/lnurlp/user"].
Proof. split; reflexivity. Qed.

(* ===================================================================== *)
(** * The boundary of the status test *)
(* ===================================================================== *)

(** C2.  The spec takes every status of 300 or more for a failure.  The
    test of [GetJSON] is [response.StatusCode > 300]: a response with
    status 300 passes it, its body is decoded, the fetch returns a nil
    error, and the handler puts the value in the reply. *)
Theorem GetJSON_takes_300_for_success :
  let resp := {| http.StatusCode := 300; http.Body := "{}" |} in
  let Get := Demo.Get (http.Received resp) Demo.unreachable in
  runState (GetJSON Get Demo.Decode "https://domain.com/.well-known/lnurlp/user")
           World_zero
  = ((json.Object [], Some resp, None),
     {| requests := ["https://domain.com/.well-known/lnurlp/user"]; logged := [] |})
  /\ fst (runState (lightning_address_details Get Demo.Decode "user@domain.com")
                   World_zero)
     = JSONPretty 200 {| Lnurlp := json.Object []; Keysend := json.Null |} "  ".
Proof. split; reflexivity. Qed.

(** C1.  The spec sends two responses with statuses of the failure
    range, 300 and above, to the branch that mirrors the status of
    lnurlp with an empty result.  The test of that branch is
    [StatusCode > 300] on both responses, as in [GetJSON]: with a 404
    from lnurlp and a 300 from keysend the branch is not taken, the
    reply is 200 and carries the keysend value; and two responses with
    status 300 get 200 with both values, not 300 with none. *)
Theorem both_failed_with_a_300_replies_200 :
  let reply (lnurlp keysend : http.GetResult) :=
    fst (runState (lightning_address_details (Demo.Get lnurlp keysend) Demo.Decode
                     "user@domain.com") World_zero) in
  reply (Demo.status 404 "Not Found") (Demo.status 300 "{}")
  = JSONPretty 200 {| Lnurlp := json.Null; Keysend := json.Object [] |} "  "
  /\ reply (Demo.status 300 "{}") (Demo.status 404 "Not Found")
     = JSONPretty 200 {| Lnurlp := json.Object []; Keysend := json.Null |} "  "
  /\ reply (Demo.status 300 "{}") (Demo.status 300 "{}")
     = JSONPretty 200 {| Lnurlp := json.Object []; Keysend := json.Object [] |} "  "
  /\ reply (Demo.status 300 "<html>") (Demo.status 300 "<html>")
     = JSONPretty 200 {| Lnurlp := json.Null; Keysend := json.Null |} "  ".
Proof. repeat split. Qed.

(* ===================================================================== *)
(** * More on [GetJSON] (src/main.go, lines 33-47) *)
(* ===================================================================== *)

(** X1.  [GetJSON] makes exactly one GET, of the URL it is given, and
    logs nothing itself; and in every case, errors included, the response
    it returns is the response of that GET, nil when there was none. *)
Theorem GetJSON_one_request_passes_response
  (Get : string -> http.GetResult) (Decode : string -> json.value + string)
  (url : string) (w : World) :
  snd (runState (GetJSON Get Decode url) w) =
    {| requests := (requests w ++ [url])%list; logged := logged w |}
  /\ snd (fst (fst (runState (GetJSON Get Decode url) w))) = http.resp_of (Get url).
Proof.
  split; [reflexivity|].
  unfold GetJSON, http_Get, GetJSON_of. cbn.
  destruct (Get url) as [r | r e]; cbn; [|reflexivity].
  destruct (above_300 r); cbn; [reflexivity|].
  destruct (Decode (http.Body r)); reflexivity.
Qed.

(** X2.  [GetJSON] returns a nil error exactly when the GET returned no
    error, the status of the response is at most 300 and the body
    decodes; the value it returns is then the decoded one.  In every
    other case the value is nil. *)
Theorem GetJSON_nil_error_iff
  (Get : string -> http.GetResult) (Decode : string -> json.value + string)
  (url : string) (w : World) :
  let res := fst (runState (GetJSON Get Decode url) w) in
  (snd res = None <->
   exists r j, Get url = http.Received r /\ (http.StatusCode r <= 300)%Z /\
               Decode (http.Body r) = inl j /\ fst (fst res) = j)
  /\ (snd res <> None -> fst (fst res) = json.Null).
Proof.
  unfold GetJSON, http_Get, GetJSON_of. cbn.
  destruct (Get url) as [r | r e]; cbn.
  - unfold above_300. destruct (Z.ltb_spec 300 (http.StatusCode r)); cbn.
    + split; [|reflexivity]. split; [discriminate|].
      intros (r' & j & [= <-] & Hle & _). lia.
    + destruct (Decode (http.Body r)) as [j | e] eqn:D; cbn.
      * split; [|congruence]. split; [|reflexivity].
        intros _. exists r, j. repeat split; assumption.
      * split; [|reflexivity]. split; [discriminate|].
        intros (r' & j & [= <-] & _ & D' & _). congruence.
  - split; [|reflexivity]. split; [discriminate|].
    intros (r' & j & E & _). discriminate E.
Qed.

(** X3.  The error of a fetch that fails at the GET or on the status
    names the URL and the error of the GET, which prints as [<nil>] when
    the response only had a status above 300; the status itself is not in
    the text.  The error of a body that does not decode carries the
    decoder's text and not the URL. *)
Theorem GetJSON_error_text
  (Decode : string -> json.value + string) (url : string) :
  (forall resp e,
     snd (GetJSON_of Decode url (http.Failed resp e))
     = Some ("No details: " ++ url ++ " - " ++ e))
  /\ (forall r, (300 < http.StatusCode r)%Z ->
        snd (GetJSON_of Decode url (http.Received r))
        = Some ("No details: " ++ url ++ " - <nil>"))
  /\ (forall r e, (http.StatusCode r <= 300)%Z -> Decode (http.Body r) = inr e ->
        snd (GetJSON_of Decode url (http.Received r))
        = Some ("Invalid JSON: " ++ e)).
Proof.
  assert (F : forall e : error,
             fmt.Sprintf "No details: %s - %v" [fmt.Str url; fmt.Err e]
             = "No details: " ++ url ++ " - " ++
               match e with Some m => m | None => "<nil>" end).
  { intros e. cbn. repeat f_equal.
    induction url as [|c u IH]; cbn.
    - destruct e; cbn; [now rewrite append_empty_r | reflexivity].
    - now rewrite IH. }
  unfold GetJSON_of, fmt.Errorf, above_300. split; [|split].
  - intros resp e. cbn [http.err_of snd]. now rewrite F.
  - intros r H. destruct (Z.ltb_spec 300 (http.StatusCode r)); [|lia].
    cbn [http.err_of snd]. now rewrite F.
  - intros r e H D. destruct (Z.ltb_spec 300 (http.StatusCode r)); [lia|].
    rewrite D. cbn. now rewrite append_empty_r.
Qed.

Lemma GetJSON_error_text_witness :
  snd (GetJSON_of Demo.Decode "https://domain.com/.well-known/lnurlp/user"
         (http.Received {| http.StatusCode := 503; http.Body := "busy" |}))
  = Some "No details: https://domain.com/.well-known/lnurlp/user - <nil>".
Proof.
  apply (proj1 (proj2 (GetJSON_error_text Demo.Decode
                         "https://domain.com/.well-known/lnurlp/user"))
           {| http.StatusCode := 503; http.Body := "busy" |}).
  cbn. lia.
Defined.

(* ===================================================================== *)
(** * What the handlers leave behind *)
(* ===================================================================== *)

Lemma Sprintf_v_error (m : string) : fmt.Sprintf "%v" [fmt.Err (Some m)] = m.
Proof. cbn. apply append_empty_r. Qed.

Lemma succeeded_decodes (Decode : string -> json.value + string)
  (url : string) (g : http.GetResult) :
  succeeded (GetJSON_of Decode url g) = decodes Decode g.
Proof.
  unfold succeeded, GetJSON_of, decodes. destruct g as [r | r e]; cbn; [|reflexivity].
  destruct (above_300 r); cbn; [reflexivity|].
  destruct (Decode (http.Body r)); reflexivity.
Qed.

#[local] Arguments fmt.Sprintf : simpl never.

(** X4.  Once the address has parsed, the handler of main.go always
    makes both GETs, the lnurlp URL first and the keysend URL second,
    whatever the first one returns: a failed fetch never stops the
    request. *)
Theorem details_fetches_both_in_order
  (Get : string -> http.GetResult) (Decode : string -> json.value + string)
  (ln lnurlpUrl keysendUrl : string) (w : World) :
  ToUrl ln = (lnurlpUrl, keysendUrl, None) ->
  requests (snd (runState (lightning_address_details Get Decode ln) w)) =
    (requests w ++ [lnurlpUrl; keysendUrl])%list.
Proof.
  intros H. unfold lightning_address_details. rewrite H.
  destruct (Get lnurlpUrl) as [l | [l|] el] eqn:El;
    destruct (Get keysendUrl) as [k | [k|] ek] eqn:Ek;
    run_fetches Get Decode; now rewrite <- app_assoc.
Qed.

Lemma details_fetches_both_in_order_witness :
  requests (snd (runState (lightning_address_details
                             (Demo.Get Demo.unreachable (Demo.status 200 "{}"))
                             Demo.Decode "user@domain.com") World_zero))
  = ["https://domain.com/.well-known/lnurlp/user";
     "https://domain.com/.well-known/keysend/user"].
Proof.
  exact (details_fetches_both_in_order
           (Demo.Get Demo.unreachable (Demo.status 200 "{}"))
           Demo.Decode "user@domain.com" _ _ World_zero eq_refl).
Defined.

(** X5.  The inline handler of part_000 also always makes both GETs on
    an address of two parts, in the other order: keysend first, lnurlp
    second. *)
Theorem inline_fetches_both_in_order
  (Get : string -> http.GetResult) (Decode : string -> json.value + string)
  (ln part0 part1 : string) (w : World) :
  strings.Split ln "@" = [part0; part1] ->
  requests (snd (runState (lightning_address_details_inline Get Decode ln) w)) =
    (requests w ++ [("https://" ++ part1 ++ "/.well-known/keysend/" ++ part0)%string;
                    ("https://" ++ part1 ++ "/.well-known/lnurlp/" ++ part0)%string])%list.
Proof.
  intros H. unfold lightning_address_details_inline. rewrite H.
  rewrite Sprintf_lnurlp, Sprintf_keysend.
  set (lnurlpUrl := "https://" ++ part1 ++ "/.well-known/lnurlp/" ++ part0).
  set (keysendUrl := "https://" ++ part1 ++ "/.well-known/keysend/" ++ part0).
  clearbody lnurlpUrl keysendUrl.
  destruct (Get lnurlpUrl) as [l | [l|] el] eqn:El;
    destruct (Get keysendUrl) as [k | [k|] ek] eqn:Ek;
    run_fetches Get Decode; now rewrite <- app_assoc.
Qed.

Lemma inline_fetches_both_in_order_witness :
  requests (snd (runState (lightning_address_details_inline
                             (Demo.Get Demo.unreachable (Demo.status 200 "{}"))
                             Demo.Decode "user@domain.com") World_zero))
  = ["https://domain.com/.well-known/keysend/user";
     "https://domain.com/.well-known/lnurlp/user"].
Proof.
  exact (inline_fetches_both_in_order
           (Demo.Get Demo.unreachable (Demo.status 200 "{}"))
           Demo.Decode "user@domain.com" "user" "domain.com" World_zero eq_refl).
Defined.

(** X6.  The handler of main.go logs one line at the error level for
    each fetch that returned an error, with the text of that error, the
    line of lnurlp before that of keysend; a fetch that succeeded logs
    nothing. *)
Theorem details_logs_each_error
  (Get : string -> http.GetResult) (Decode : string -> json.value + string)
  (ln lnurlpUrl keysendUrl : string) (w : World) :
  ToUrl ln = (lnurlpUrl, keysendUrl, None) ->
  logged (snd (runState (lightning_address_details Get Decode ln) w)) =
    (logged w
     ++ logged_for LError (snd (GetJSON_of Decode lnurlpUrl (Get lnurlpUrl)))
     ++ logged_for LError (snd (GetJSON_of Decode keysendUrl (Get keysendUrl))))%list.
Proof.
  intros H. unfold lightning_address_details. rewrite H.
  destruct (Get lnurlpUrl) as [l | [l|] el] eqn:El;
    destruct (Get keysendUrl) as [k | [k|] ek] eqn:Ek;
    run_fetches Get Decode;
    unfold fmt.Errorf; cbn; rewrite ?Sprintf_v_error, <- ?app_assoc, ?app_nil_r;
    reflexivity.
Qed.

Lemma details_logs_each_error_witness :
  logged (snd (runState (lightning_address_details
                           (Demo.Get (Demo.status 503 "busy") (Demo.status 200 "<html>"))
                           Demo.Decode "user@domain.com") World_zero))
  = [(LError, "No details: https://domain.com/.well-known/lnurlp/user - <nil>");
     (LError, "Invalid JSON: invalid character")].
Proof.
  exact (details_logs_each_error
           (Demo.Get (Demo.status 503 "busy") (Demo.status 200 "<html>"))
           Demo.Decode "user@domain.com" _ _ World_zero eq_refl).
Defined.

(** X7.  The inline handler of part_000 logs through [Printf]: it adds
    one line, at the print level, for each of the two fetches that does
    not end in a decoded value, and none for one that does. *)
Theorem inline_logs_each_failure
  (Get : string -> http.GetResult) (Decode : string -> json.value + string)
  (ln part0 part1 : string) (w : World) :
  strings.Split ln "@" = [part0; part1] ->
  exists lines,
    logged (snd (runState (lightning_address_details_inline Get Decode ln) w))
    = (logged w ++ lines)%list
    /\ length lines =
         failures Decode
           (Get ("https://" ++ part1 ++ "/.well-known/keysend/" ++ part0))
           (Get ("https://" ++ part1 ++ "/.well-known/lnurlp/" ++ part0))
    /\ Forall (fun line => fst line = LPrint) lines.
Proof.
  intros H. unfold lightning_address_details_inline. rewrite H.
  rewrite Sprintf_lnurlp, Sprintf_keysend.
  set (lnurlpUrl := "https://" ++ part1 ++ "/.well-known/lnurlp/" ++ part0).
  set (keysendUrl := "https://" ++ part1 ++ "/.well-known/keysend/" ++ part0).
  clearbody lnurlpUrl keysendUrl. unfold failures, decodes.
  destruct (Get lnurlpUrl) as [l | [l|] el] eqn:El;
    destruct (Get keysendUrl) as [k | [k|] ek] eqn:Ek;
    run_fetches Get Decode;
    rewrite <- ?app_assoc;
    (eexists; split; [reflexivity | split; [reflexivity | repeat constructor]])
    || (exists []; split; [now rewrite app_nil_r | split; [reflexivity | constructor]]).
Qed.

Lemma inline_logs_each_failure_witness :
  exists lines,
    logged (snd (runState (lightning_address_details_inline
                             (Demo.Get (Demo.status 503 "busy") (Demo.status 200 "{}"))
                             Demo.Decode "user@domain.com") World_zero))
    = lines /\ length lines = 1.
Proof.
  destruct (inline_logs_each_failure
              (Demo.Get (Demo.status 503 "busy") (Demo.status 200 "{}"))
              Demo.Decode "user@domain.com" "user" "domain.com" World_zero eq_refl)
    as (lines & E & L & _).
  exists lines. split; [exact E | exact L].
Defined.

(* ===================================================================== *)
(** * What every reply looks like *)
(* ===================================================================== *)

(** Every run ends in one of two ways: the address did not parse, or the
    reply is the verdict on the two fetches. *)
Lemma details_cases
  (Get : string -> http.GetResult) (Decode : string -> json.value + string)
  (ln : string) (w : World) :
  (snd (ToUrl ln) <> None /\
   fst (runState (lightning_address_details Get Decode ln) w) =
     JSON 400 LNResponse_zero)
  \/ (exists lnurlpUrl keysendUrl,
        ToUrl ln = (lnurlpUrl, keysendUrl, None) /\
        fst (runState (lightning_address_details Get Decode ln) w) =
          verdict Get Decode lnurlpUrl keysendUrl).
Proof.
  destruct (ToUrl ln) as [[u1 u2] [m|]] eqn:E.
  - left. split; [discriminate|].
    unfold lightning_address_details. now rewrite E.
  - right. exists u1, u2. split; [reflexivity|]. now apply details_reply.
Qed.

(** Splits a goal about [verdict] on everything the decision looks at. *)
Ltac verdict_cases Get Decode u1 u2 :=
  unfold verdict, contribution, succeeded, GetJSON_of;
  destruct (Get u1) as [?l | [?l|] ?el];
  destruct (Get u2) as [?k | [?k|] ?ek]; cbn;
  repeat match goal with
         | |- context [above_300 ?r] => destruct (above_300 r) eqn:?; cbn
         | |- context [Decode ?b] => destruct (Decode b) eqn:?; cbn
         end.

(** X8.  The status of a reply is 200, or 400, or a status above 300
    taken from the lnurlp response; the handler never answers with any
    other status, and never with the status of the keysend response
    unless lnurlp has the same. *)
Theorem reply_status_range
  (Get : string -> http.GetResult) (Decode : string -> json.value + string)
  (ln : string) (w : World) :
  let code := code_of (fst (runState (lightning_address_details Get Decode ln) w)) in
  code = 200%Z \/ code = 400%Z \/
  ((300 < code)%Z /\
   exists l, http.resp_of (Get (fst (fst (ToUrl ln)))) = Some l /\
             code = http.StatusCode l).
Proof.
  destruct (details_cases Get Decode ln w) as [[_ ->] | (u1 & u2 & E & ->)];
    [right; left; reflexivity|].
  rewrite E. cbn [fst]. unfold verdict.
  destruct (http.resp_of (Get u1)) as [l|], (http.resp_of (Get u2)) as [k|];
    try (left; reflexivity); try (right; left; reflexivity).
  destruct (above_300 l) eqn:Al; cbn; [|left; reflexivity].
  destruct (above_300 k); cbn; [|left; reflexivity].
  right; right. split; [|exists l; split; reflexivity].
  unfold above_300 in Al. now apply Z.ltb_lt.
Qed.

(** X9.  A reply whose status is not 200 has both fields empty: a value
    fetched from either endpoint is only ever sent with status 200. *)
Theorem non_ok_reply_is_empty
  (Get : string -> http.GetResult) (Decode : string -> json.value + string)
  (ln : string) (w : World) :
  code_of (fst (runState (lightning_address_details Get Decode ln) w)) <> 200%Z ->
  body_of (fst (runState (lightning_address_details Get Decode ln) w)) =
    {| Lnurlp := json.Null; Keysend := json.Null |}.
Proof.
  destruct (details_cases Get Decode ln w) as [[_ ->] | (u1 & u2 & _ & ->)];
    [reflexivity|].
  verdict_cases Get Decode u1 u2; intros H; try reflexivity;
    exfalso; apply H; reflexivity.
Qed.

Lemma non_ok_reply_is_empty_witness :
  body_of (fst (runState (lightning_address_details
                            (Demo.Get (Demo.status 404 "{}") (Demo.status 500 "{}"))
                            Demo.Decode "user@domain.com") World_zero))
  = {| Lnurlp := json.Null; Keysend := json.Null |}.
Proof.
  apply (non_ok_reply_is_empty
           (Demo.Get (Demo.status 404 "{}") (Demo.status 500 "{}"))
           Demo.Decode "user@domain.com" World_zero).
  cbn. discriminate.
Defined.

(** X10.  How the reply is rendered.  It is the compact [c.JSON], with
    status 400 and both fields empty, when the address does not parse or
    when neither GET returned a response; in every other case it is
    [c.JSONPretty] with an indentation of two spaces, the mirrored
    failure status included. *)
Theorem reply_rendering
  (Get : string -> http.GetResult) (Decode : string -> json.value + string)
  (ln : string) (w : World) :
  let reply := fst (runState (lightning_address_details Get Decode ln) w) in
  let lnurlpResponse := http.resp_of (Get (fst (fst (ToUrl ln)))) in
  let keysendResponse := http.resp_of (Get (snd (fst (ToUrl ln)))) in
  (reply = JSON 400 {| Lnurlp := json.Null; Keysend := json.Null |} /\
   (snd (ToUrl ln) <> None \/ neither_responded lnurlpResponse keysendResponse))
  \/ (reply = JSONPretty (code_of reply) (body_of reply) "  " /\
      snd (ToUrl ln) = None /\
      ~ neither_responded lnurlpResponse keysendResponse).
Proof.
  destruct (details_cases Get Decode ln w) as [[N ->] | (u1 & u2 & E & ->)].
  - left. split; [reflexivity | left; exact N].
  - rewrite E. cbn [fst snd]. unfold neither_responded.
    destruct (http.resp_of (Get u1)) as [l|] eqn:Rl;
      destruct (http.resp_of (Get u2)) as [k|] eqn:Rk.
    4: { left. split; [|right; split; reflexivity].
         unfold verdict. rewrite Rl, Rk.
         destruct (Get u1) as [? | ? ?]; [discriminate|].
         destruct (Get u2) as [? | ? ?]; [discriminate|]. reflexivity. }
    all: right; split;
      [ unfold verdict; rewrite Rl, Rk;
        try destruct (above_300 l && above_300 k); reflexivity
      | split; [reflexivity | intros [A B]; discriminate] ].
Qed.

(** X11.  A failure status on its own is masked.  When one endpoint
    answers with a status above 300 and the other gives no response at
    all, the reply is 200 with both fields empty, whichever of the two
    endpoints answered. *)
Theorem lone_failure_status_is_masked
  (Get : string -> http.GetResult) (Decode : string -> json.value + string)
  (ln lnurlpUrl keysendUrl : string) (r : http.Response) (w : World) :
  ToUrl ln = (lnurlpUrl, keysendUrl, None) ->
  above_300 r = true ->
  (http.resp_of (Get lnurlpUrl) = Some r /\ http.resp_of (Get keysendUrl) = None)
  \/ (http.resp_of (Get lnurlpUrl) = None /\ http.resp_of (Get keysendUrl) = Some r) ->
  fst (runState (lightning_address_details Get Decode ln) w) =
    JSONPretty 200 {| Lnurlp := json.Null; Keysend := json.Null |} "  ".
Proof.
  intros E A H. rewrite (details_reply Get Decode ln _ _ w E).
  unfold verdict, contribution, succeeded, GetJSON_of.
  destruct H as [[Hl Hk] | [Hl Hk]]; rewrite Hl, Hk;
    destruct (Get lnurlpUrl) as [l | l el]; destruct (Get keysendUrl) as [k | k ek];
    cbn in Hl, Hk; try discriminate; subst; cbn;
    try (injection Hl as ->); try (injection Hk as ->);
    rewrite ?A; reflexivity.
Qed.

Lemma lone_failure_status_is_masked_witness :
  fst (runState (lightning_address_details
                   (Demo.Get (Demo.status 500 "oops") Demo.unreachable)
                   Demo.Decode "user@domain.com") World_zero)
  = JSONPretty 200 {| Lnurlp := json.Null; Keysend := json.Null |} "  ".
Proof.
  apply (lone_failure_status_is_masked
           (Demo.Get (Demo.status 500 "oops") Demo.unreachable)
           Demo.Decode "user@domain.com" _ _
           {| http.StatusCode := 500; http.Body := "oops" |}
           World_zero eq_refl eq_refl).
  left. split; reflexivity.
Defined.

(* ===================================================================== *)
(** * More on [ToUrl] (src/main.go, lines 49-59) *)
(* ===================================================================== *)

Lemma Split_cons (s : string) (sep : ascii) :
  exists p ps, strings.Split s sep = p :: ps.
Proof.
  destruct s as [|c s]; cbn; [now exists "", []|].
  destruct (Ascii.eqb c sep); [now eexists _, _|].
  destruct (strings.Split s sep); now eexists _, _.
Qed.

(** A split in one part: the string has no separator and is the part. *)
Lemma Split_one_inv (sep : ascii) (s d : string) :
  strings.Split s sep = [d] -> s = d /\ strings.Count d sep = 0.
Proof.
  revert d. induction s as [|c s IH]; cbn; intros d H.
  - injection H as <-. split; reflexivity.
  - destruct (Ascii.eqb c sep) eqn:C.
    + destruct (Split_cons s sep) as (p & ps & E). rewrite E in H. discriminate.
    + destruct (strings.Split s sep) as [|p ps] eqn:E.
      * destruct (Split_cons s sep) as (p & ps & E'). congruence.
      * injection H as <- ->. destruct (IH p eq_refl) as [-> Hc].
        split; [reflexivity|]. cbn. now rewrite C.
Qed.

(** A split in two parts: the string is the two parts around one
    separator, and neither part holds a separator. *)
Lemma Split_two_inv (sep : ascii) (s l d : string) :
  strings.Split s sep = [l; d] ->
  s = l ++ String sep d /\ strings.Count l sep = 0 /\ strings.Count d sep = 0.
Proof.
  revert l. induction s as [|c s IH]; cbn; intros l H; [discriminate|].
  destruct (Ascii.eqb_spec c sep) as [-> | N].
  - injection H as <- H. destruct (Split_one_inv _ _ _ H) as [-> Hc].
    repeat split; assumption.
  - destruct (strings.Split s sep) as [|p ps] eqn:E; [discriminate|].
    injection H as <- ->. destruct (IH p eq_refl) as (-> & Hp & Hd).
    repeat split; [|assumption]. cbn.
    destruct (Ascii.eqb_spec c sep); [contradiction | exact Hp].
Qed.

Lemma append_assoc' (a b c : string) : (a ++ b) ++ c = a ++ b ++ c.
Proof. induction a as [|x a IH]; cbn; [reflexivity | now rewrite IH]. Qed.

Lemma append_inj_l (s a b : string) : s ++ a = s ++ b -> a = b.
Proof.
  induction s as [|c s IH]; cbn; [trivial|]. intros [= H]. now apply IH.
Qed.

(** Two ways of cutting one string: one cut is the other moved by [t]. *)
Lemma append_eq_split (a x b y : string) :
  a ++ x = b ++ y ->
  exists t, (b = a ++ t /\ x = t ++ y) \/ (a = b ++ t /\ y = t ++ x).
Proof.
  revert b. induction a as [|c a IH]; intros b H.
  - exists b. left. split; [reflexivity | exact H].
  - destruct b as [|c' b].
    + exists (String c a). right. split; [reflexivity | symmetry; exact H].
    + cbn in H. injection H as <- H. destruct (IH b H) as (t & [[-> E] | [-> E]]).
      * exists t. left. split; [reflexivity | exact E].
      * exists t. right. split; [reflexivity | exact E].
Qed.

(** The two templates cannot both be moved by the same non-empty piece:
    the tails [lnurlp/] and [keysend/] part at their first byte. *)
Lemma no_common_shift (t l l' : string) :
  "/.well-known/lnurlp/" ++ l = t ++ "/.well-known/lnurlp/" ++ l' ->
  "/.well-known/keysend/" ++ l = t ++ "/.well-known/keysend/" ++ l' ->
  t = "".
Proof.
  intros H1 H2.
  do 14 (destruct t as [|? t]; [try reflexivity; cbn in H1; discriminate H1|];
         cbn in H1, H2; injection H1 as ? H1; injection H2 as ? H2; subst).
  discriminate.
Qed.

(** X12.  [ToUrl] accepts exactly the identifiers with one [@].  An
    accepted identifier is its local part, the [@] and its domain, and
    neither of the two holds an [@]. *)
Theorem ToUrl_accepts_one_at (identifier : string) :
  (snd (ToUrl identifier) = None <-> strings.Count identifier "@" = 1)
  /\ (forall lnurlpUrl keysendUrl,
        ToUrl identifier = (lnurlpUrl, keysendUrl, None) ->
        exists local domain,
          identifier = local ++ "@" ++ domain /\
          strings.Count local "@" = 0 /\ strings.Count domain "@" = 0 /\
          lnurlpUrl = "https://" ++ domain ++ "/.well-known/lnurlp/" ++ local /\
          keysendUrl = "https://" ++ domain ++ "/.well-known/keysend/" ++ local).
Proof.
  pose proof (Split_length identifier "@") as L.
  split.
  - destruct (strings.Split identifier "@") as [|a [|b [|c t]]] eqn:E;
      cbn in L; unfold ToUrl; rewrite E; cbn [snd fmt.Errorf];
      split; intros H; try discriminate; try lia; reflexivity.
  - intros u1 u2 H.
    destruct (strings.Split identifier "@") as [|a [|b [|c t]]] eqn:E;
      try (unfold ToUrl in H; rewrite E in H; discriminate H).
    rewrite (ToUrl_parts _ _ _ E) in H. injection H as <- <-.
    destruct (Split_two_inv _ _ _ _ E) as (-> & Ha & Hb).
    exists a, b. repeat split; assumption.
Qed.

Lemma ToUrl_accepts_one_at_witness :
  exists local domain,
    "user@domain.com" = local ++ "@" ++ domain /\
    strings.Count local "@" = 0 /\ strings.Count domain "@" = 0.
Proof.
  destruct (proj2 (ToUrl_accepts_one_at "user@domain.com") _ _ eq_refl)
    as (local & domain & E & Hl & Hd & _).
  exists local, domain. repeat split; assumption.
Defined.

(** X13.  The two URLs of an accepted identifier are never the same
    string: the two fetches always go to two different addresses. *)
Theorem ToUrl_urls_differ (identifier lnurlpUrl keysendUrl : string) :
  ToUrl identifier = (lnurlpUrl, keysendUrl, None) ->
  lnurlpUrl <> keysendUrl.
Proof.
  intros H.
  destruct (strings.Split identifier "@") as [|a [|b [|c t]]] eqn:E;
    try (unfold ToUrl in H; rewrite E in H; discriminate H).
  rewrite (ToUrl_parts _ _ _ E) in H. injection H as <- <-.
  intros C. cbn in C. injection C as C. apply append_inj_l in C. discriminate C.
Qed.

Lemma ToUrl_urls_differ_witness :
  "https://domain.com/.well-known/lnurlp/user"
  <> "https://domain.com/.well-known/keysend/user".
Proof.
  exact (ToUrl_urls_differ "user@domain.com" _ _ eq_refl).
Defined.

(** X14.  [ToUrl] is injective on the identifiers it accepts: although
    nothing is escaped, two different identifiers never get the same pair
    of URLs. *)
Theorem ToUrl_injective (identifier identifier' lnurlpUrl keysendUrl : string) :
  ToUrl identifier = (lnurlpUrl, keysendUrl, None) ->
  ToUrl identifier' = (lnurlpUrl, keysendUrl, None) ->
  identifier = identifier'.
Proof.
  intros H H'.
  destruct (strings.Split identifier "@") as [|l [|d [|c t]]] eqn:E;
    try (unfold ToUrl in H; rewrite E in H; discriminate H).
  destruct (strings.Split identifier' "@") as [|l' [|d' [|c' t']]] eqn:E';
    try (unfold ToUrl in H'; rewrite E' in H'; discriminate H').
  rewrite (ToUrl_parts _ _ _ E) in H. rewrite (ToUrl_parts _ _ _ E') in H'.
  rewrite <- H' in H. injection H as H1 H2.
  destruct (Split_two_inv _ _ _ _ E) as (-> & _).
  destruct (Split_two_inv _ _ _ _ E') as (-> & _).
  destruct (append_eq_split _ _ _ _ H2) as (t & [[-> X] | [-> X]]).
  - rewrite append_assoc' in H1, H2. apply append_inj_l in H1, H2.
    assert (t = "") as ->
      by first [exact (no_common_shift _ _ _ H1 H2) | exact (no_common_shift _ _ _ H2 H1)].
    cbn in H1. injection H1 as ->. now rewrite append_empty_r.
  - rewrite append_assoc' in H1, H2. apply append_inj_l in H1, H2.
    symmetry in H1, H2.
    assert (t = "") as ->
      by first [exact (no_common_shift _ _ _ H1 H2) | exact (no_common_shift _ _ _ H2 H1)].
    cbn in H1. injection H1 as ->. now rewrite append_empty_r.
Qed.

Lemma ToUrl_injective_witness :
  ToUrl "user@domain.com" =
    ("https://domain.com/.well-known/lnurlp/user",
     "https://domain.com/.well-known/keysend/user", None)
  /\ "user@domain.com" = "user@domain.com".
Proof.
  split; [reflexivity|].
  exact (ToUrl_injective "user@domain.com" "user@domain.com" _ _ eq_refl eq_refl).
Defined.

(* ===================================================================== *)
(** * More on the handlers *)
(* ===================================================================== *)

(** X15.  The inline handler of part_000 treats an identifier that does
    not hold exactly one [@] as the handler of main.go does: status 400,
    both fields empty, no GET made and nothing logged. *)
Theorem inline_no_single_at_is_bad_request
  (Get : string -> http.GetResult) (Decode : string -> json.value + string)
  (ln : string) (w : World) :
  strings.Count ln "@" <> 1 ->
  runState (lightning_address_details_inline Get Decode ln) w =
    (JSON 400 {| Lnurlp := json.Null; Keysend := json.Null |}, w).
Proof.
  intros H. apply inline_unparsed. rewrite Split_length. lia.
Qed.

Lemma inline_no_single_at_is_bad_request_witness :
  runState (lightning_address_details_inline
              (Demo.Get (Demo.status 200 "{}") (Demo.status 200 "{}")) Demo.Decode "")
           World_zero
  = (JSON 400 {| Lnurlp := json.Null; Keysend := json.Null |}, World_zero).
Proof.
  apply (inline_no_single_at_is_bad_request
           (Demo.Get (Demo.status 200 "{}") (Demo.status 200 "{}")) Demo.Decode ""
           World_zero).
  cbn. lia.
Defined.

(** X16.  Nothing is kept from one request to the next: a second request
    for the same address makes the two GETs again, and gets the same
    reply as the first as long as the outcomes of the GETs are the
    same. *)
Theorem nothing_kept_between_requests
  (Get : string -> http.GetResult) (Decode : string -> json.value + string)
  (ln lnurlpUrl keysendUrl : string) (w : World) :
  ToUrl ln = (lnurlpUrl, keysendUrl, None) ->
  let run := runState (twice (lightning_address_details Get Decode) ln) w in
  fst (fst run) = snd (fst run)
  /\ requests (snd run) =
       (requests w ++ [lnurlpUrl; keysendUrl; lnurlpUrl; keysendUrl])%list.
Proof.
  intros H. unfold twice, lightning_address_details. rewrite H.
  destruct (Get lnurlpUrl) as [l | [l|] el] eqn:El;
    destruct (Get keysendUrl) as [k | [k|] ek] eqn:Ek;
    run_fetches Get Decode;
    (split; [reflexivity | now rewrite <- !app_assoc]).
Qed.

Lemma nothing_kept_between_requests_witness :
  requests (snd (runState (twice (lightning_address_details
                                    (Demo.Get (Demo.status 200 "{}") Demo.unreachable)
                                    Demo.Decode) "user@domain.com") World_zero))
  = ["https://domain.com/.well-known/lnurlp/user";
     "https://domain.com/.well-known/keysend/user";
     "https://domain.com/.well-known/lnurlp/user";
     "https://domain.com/.well-known/keysend/user"].
Proof.
  exact (proj2 (nothing_kept_between_requests
                  (Demo.Get (Demo.status 200 "{}") Demo.unreachable)
                  Demo.Decode "user@domain.com" _ _ World_zero eq_refl)).
Defined.

(** X17.  What the upstream says when it fails does not reach the
    client: the reply is the same in two outside worlds whose GETs differ
    only in the text of their errors and in the bodies sent under a
    status above 300. *)
Theorem failure_details_do_not_reach_the_reply
  (Get Get' : string -> http.GetResult) (Decode : string -> json.value + string)
  (ln lnurlpUrl keysendUrl : string) (w w' : World) :
  ToUrl ln = (lnurlpUrl, keysendUrl, None) ->
  same_to_client (Get lnurlpUrl) (Get' lnurlpUrl) ->
  same_to_client (Get keysendUrl) (Get' keysendUrl) ->
  fst (runState (lightning_address_details Get Decode ln) w) =
  fst (runState (lightning_address_details Get' Decode ln) w').
Proof.
  intros H Sl Sk.
  rewrite (details_reply Get Decode ln _ _ w H),
          (details_reply Get' Decode ln _ _ w' H).
  assert (C : forall url g g', same_to_client g g' ->
              contribution (GetJSON_of Decode url g)
              = contribution (GetJSON_of Decode url g')).
  { intros url g g' S. unfold contribution, succeeded, GetJSON_of.
    destruct g as [r | o e], g' as [r' | o' e']; cbn in S; try contradiction;
      [|reflexivity].
    destruct S as [Sc Sb]. unfold above_300 in *. rewrite <- Sc.
    destruct (300 <? http.StatusCode r)%Z eqn:A; [reflexivity|].
    destruct Sb as [Sb | Sb]; [congruence|].
    rewrite Sb. destruct (Decode (http.Body r')); reflexivity. }
  assert (R : forall g g', same_to_client g g' ->
              option_map http.StatusCode (http.resp_of g)
              = option_map http.StatusCode (http.resp_of g')).
  { intros g g' S. destruct g as [r | o e], g' as [r' | o' e']; cbn in *;
      try contradiction; [now rewrite (proj1 S) | exact S]. }
  unfold verdict. rewrite (C _ _ _ Sl), (C _ _ _ Sk).
  specialize (R _ _ Sl) as Rl. specialize (R _ _ Sk) as Rk.
  destruct (http.resp_of (Get lnurlpUrl)) as [l|],
           (http.resp_of (Get' lnurlpUrl)) as [l'|]; cbn in Rl; try discriminate;
  destruct (http.resp_of (Get keysendUrl)) as [k|],
           (http.resp_of (Get' keysendUrl)) as [k'|]; cbn in Rk; try discriminate;
    try reflexivity.
  injection Rl as Rl. injection Rk as Rk. unfold above_300. now rewrite Rl, Rk.
Qed.

Lemma failure_details_do_not_reach_the_reply_witness :
  fst (runState (lightning_address_details
                   (Demo.Get (Demo.status 404 "no such user")
                             (http.Failed None "connection refused"))
                   Demo.Decode "user@domain.com") World_zero)
  = fst (runState (lightning_address_details
                     (Demo.Get (Demo.status 404 "<html>secret</html>") Demo.unreachable)
                     Demo.Decode "user@domain.com") World_zero).
Proof.
  apply (failure_details_do_not_reach_the_reply
           (Demo.Get (Demo.status 404 "no such user")
                     (http.Failed None "connection refused"))
           (Demo.Get (Demo.status 404 "<html>secret</html>") Demo.unreachable)
           Demo.Decode "user@domain.com" _ _ World_zero World_zero eq_refl).
  - cbn. split; [reflexivity | left; reflexivity].
  - cbn. reflexivity.
Defined.

(** X18.  A body that is the JSON [null] is a fetch that succeeds, and
    yet the reply is the one the client gets when the body does not
    decode at all: the field is null in both cases.  Only the log tells
    the two apart. *)
Theorem null_body_replies_as_undecodable
  (Get Get' : string -> http.GetResult) (Decode : string -> json.value + string)
  (ln lnurlpUrl keysendUrl : string) (r r' : http.Response) (e : string)
  (w w' : World) :
  ToUrl ln = (lnurlpUrl, keysendUrl, None) ->
  Get lnurlpUrl = http.Received r -> Get' lnurlpUrl = http.Received r' ->
  http.StatusCode r = http.StatusCode r' -> above_300 r = false ->
  Decode (http.Body r) = inl json.Null -> Decode (http.Body r') = inr e ->
  Get keysendUrl = Get' keysendUrl ->
  succeeded (GetJSON_of Decode lnurlpUrl (Get lnurlpUrl)) = true
  /\ succeeded (GetJSON_of Decode lnurlpUrl (Get' lnurlpUrl)) = false
  /\ fst (runState (lightning_address_details Get Decode ln) w) =
     fst (runState (lightning_address_details Get' Decode ln) w').
Proof.
  intros H G G' S A D D' K.
  assert (A' : above_300 r' = false) by (unfold above_300 in *; now rewrite <- S).
  rewrite (details_reply Get Decode ln _ _ w H),
          (details_reply Get' Decode ln _ _ w' H).
  unfold verdict, contribution, succeeded, GetJSON_of.
  rewrite G, G', <- K. cbn. rewrite A, A', D, D'. cbn.
  repeat split.
Qed.

Lemma null_body_replies_as_undecodable_witness :
  fst (runState (lightning_address_details
                   (Demo.Get (Demo.status 200 "null") Demo.unreachable)
                   Demo.Decode "user@domain.com") World_zero)
  = fst (runState (lightning_address_details
                     (Demo.Get (Demo.status 200 "<html>") Demo.unreachable)
                     Demo.Decode "user@domain.com") World_zero).
Proof.
  exact (proj2 (proj2 (null_body_replies_as_undecodable
           (Demo.Get (Demo.status 200 "null") Demo.unreachable)
           (Demo.Get (Demo.status 200 "<html>") Demo.unreachable)
           Demo.Decode "user@domain.com" _ _
           {| http.StatusCode := 200; http.Body := "null" |}
           {| http.StatusCode := 200; http.Body := "<html>" |}
           "invalid character" World_zero World_zero
           eq_refl eq_refl eq_refl eq_refl eq_refl eq_refl eq_refl eq_refl))).
Defined.
